(** * Course2Job chat widget: a model of [chatbot_web/static/script.js]

    The script wires a send button and the Enter key of a text input to one
    asynchronous exchange with the [/chat] endpoint and renders both sides of
    the conversation into a scrollable log.

    The development proceeds in the order of the script's dependencies:
    - [JSString]: strings as sequences of UTF-16 code units, [trim],
      template pieces;
    - [JSValue]: the values [response.json()] can deliver, property
      access, [ToString] with its throwing case, [JSON.stringify];
    - [Dom]: the three elements the script owns and the host calls it makes,
      each recorded in an effect trace;
    - [Async]: a resumption monad for [async]/[await];
    - [Script]: [appendMessage] and the two listeners;
    - the properties. *)

From Stdlib Require Import List NArith String Ascii Bool Lia.
Import ListNotations.

Local Open Scope N_scope.
Local Open Scope list_scope.

(* ===================================================================== *)
(** ** Strings *)
(* ===================================================================== *)

Module JSString.

(** A JavaScript string is a finite sequence of 16-bit code units. *)
Definition jsstring : Type := list N.

(** The script's literals are all ASCII; [lit] reads one off. *)
Fixpoint lit (s : string) : jsstring :=
  match s with
  | EmptyString => []
  | String a rest => N_of_ascii a :: lit rest
  end.

(** The double quote, U+0022. *)
Definition dquote : jsstring := [0x22].

(** [===] on two strings. *)
Fixpoint strict_eq (s t : jsstring) : bool :=
  match s, t with
  | [], [] => true
  | c :: s', d :: t' => (c =? d) && strict_eq s' t'
  | _, _ => false
  end.

(** ECMAScript WhiteSpace and LineTerminator code points, the set that
    [String.prototype.trim] strips.  All of them lie in the BMP, so the
    test is on a single code unit. *)
Definition is_whitespace (c : N) : bool :=
  (c =? 0x0009) || (c =? 0x000A) || (c =? 0x000B) || (c =? 0x000C)
  || (c =? 0x000D) || (c =? 0x0020) || (c =? 0x00A0) || (c =? 0x1680)
  || ((0x2000 <=? c) && (c <=? 0x200A))
  || (c =? 0x2028) || (c =? 0x2029) || (c =? 0x202F) || (c =? 0x205F)
  || (c =? 0x3000) || (c =? 0xFEFF).

Fixpoint trimStart (s : jsstring) : jsstring :=
  match s with
  | [] => []
  | c :: rest => if is_whitespace c then trimStart rest else s
  end.

Definition trimEnd (s : jsstring) : jsstring :=
  rev (trimStart (rev s)).

(** [s.trim()] *)
Definition trim (s : jsstring) : jsstring :=
  trimEnd (trimStart s).

(** Truthiness of a string: only the empty string is falsy. *)
Definition truthy (s : jsstring) : bool :=
  match s with
  | [] => false
  | _ :: _ => true
  end.

End JSString.
Import JSString.

(* ===================================================================== *)
(** ** Values *)
(* ===================================================================== *)

Module JSValue.

(** The values that reach the script: what [response.json()] resolves to,
    plus [undefined] for a missing property.  A number is carried by the
    text [Number::toString] gives for it, the only thing the script ever
    observes of a number.  An object is its own properties in order, each
    key once: of two bindings of one key only the first would be seen. *)
#[warnings="-register-all"] Inductive jsvalue : Type :=
| JUndefined
| JNull
| JBool (b : bool)
| JNumber (repr : jsstring)
| JString (s : jsstring)
| JArray (items : list jsvalue)
| JObject (props : list (jsstring * jsvalue)).

(** What a script can throw or a promise can reject with. *)
Inductive exn : Type :=
| TypeError
| SyntaxError
| AbortError.

Fixpoint own_property (key : jsstring) (props : list (jsstring * jsvalue))
  : jsvalue :=
  match props with
  | [] => JUndefined
  | (k, v) :: rest => if strict_eq k key then v else own_property key rest
  end.

(** [v.key] for a key no prototype defines: reading a property of
    [undefined] or [null] throws a TypeError; primitives and arrays have
    no such property; an object answers with its own property. *)
Definition GetV (v : jsvalue) (key : jsstring) : exn + jsvalue :=
  match v with
  | JUndefined | JNull => inl TypeError
  | JObject props => inr (own_property key props)
  | JBool _ | JNumber _ | JString _ | JArray _ => inr JUndefined
  end.

(** [sep]-separated concatenation. *)
Fixpoint join (sep : jsstring) (parts : list jsstring) : jsstring :=
  match parts with
  | [] => []
  | [p] => p
  | p :: rest => p ++ sep ++ join sep rest
  end.

(** An object has a property of its own under [key]. *)
Definition has_own_property (key : jsstring)
  (props : list (jsstring * jsvalue)) : bool :=
  existsb (fun kv => strict_eq (fst kv) key) props.

(** [ToString], as a template literal applies it to a substitution.
    Primitives convert as the language says.  An array converts through
    [Array.prototype.join]: its elements converted from left to right,
    [undefined] and [null] as the empty string, joined by commas.  An
    object converts through [ToPrimitive]: without a [toString] member of
    its own it inherits [Object.prototype.toString]; with one, the member
    is data and cannot be called, the inherited [valueOf] gives back the
    object, and the conversion throws a TypeError. *)
Fixpoint ToString (v : jsvalue) : exn + jsstring :=
  match v with
  | JUndefined => inr (lit "undefined")
  | JNull => inr (lit "null")
  | JBool true => inr (lit "true")
  | JBool false => inr (lit "false")
  | JNumber repr => inr repr
  | JString s => inr s
  | JArray items =>
      match
        (fix elements (l : list jsvalue) : exn + list jsstring :=
           match l with
           | [] => inr []
           | item :: rest =>
               match
                 match item with
                 | JUndefined | JNull => inr []
                 | _ => ToString item
                 end
               with
               | inl e => inl e
               | inr text =>
                   match elements rest with
                   | inl e => inl e
                   | inr texts => inr (text :: texts)
                   end
               end
           end) items
      with
      | inl e => inl e
      | inr texts => inr (join (lit ",") texts)
      end
  | JObject props =>
      if has_own_property (lit "toString") props
      then inl TypeError
      else inr (lit "[object Object]")
  end.

(** *** JSON.stringify *)

Definition hex_digit (n : N) : N :=
  if n <? 10 then 0x30 + n else 0x57 + n.

(** [UnicodeEscape]: backslash, [u], four lower-case hex digits. *)
Definition UnicodeEscape (c : N) : jsstring :=
  [0x5C; 0x75;
   hex_digit ((c / 4096) mod 16); hex_digit ((c / 256) mod 16);
   hex_digit ((c / 16) mod 16); hex_digit (c mod 16)].

Definition is_leading_surrogate (c : N) : bool :=
  (0xD800 <=? c) && (c <=? 0xDBFF).

Definition is_trailing_surrogate (c : N) : bool :=
  (0xDC00 <=? c) && (c <=? 0xDFFF).

(** The escape of one code point that is not part of a surrogate pair. *)
Definition quote_unit (c : N) : jsstring :=
  if c =? 0x08 then [0x5C; 0x62]
  else if c =? 0x09 then [0x5C; 0x74]
  else if c =? 0x0A then [0x5C; 0x6E]
  else if c =? 0x0C then [0x5C; 0x66]
  else if c =? 0x0D then [0x5C; 0x72]
  else if c =? 0x22 then [0x5C; 0x22]
  else if c =? 0x5C then [0x5C; 0x5C]
  else if (c <? 0x20) || is_leading_surrogate c || is_trailing_surrogate c
       then UnicodeEscape c
       else [c].

Fixpoint quote_units (s : jsstring) : jsstring :=
  match s with
  | [] => []
  | c :: rest =>
      match rest with
      | d :: rest' =>
          if is_leading_surrogate c && is_trailing_surrogate d
          then c :: d :: quote_units rest'
          else quote_unit c ++ quote_units rest
      | [] => quote_unit c
      end
  end.

(** [QuoteJSONString] *)
Definition QuoteJSONString (s : jsstring) : jsstring :=
  dquote ++ quote_units s ++ dquote.

Definition is_non_finite (repr : jsstring) : bool :=
  strict_eq repr (lit "NaN") || strict_eq repr (lit "Infinity")
  || strict_eq repr (lit "-Infinity").

(** [SerializeJSONProperty] without replacer or indentation: [None] is
    the [undefined] result. *)
Fixpoint SerializeJSONProperty (v : jsvalue) : option jsstring :=
  match v with
  | JUndefined => None
  | JNull => Some (lit "null")
  | JBool true => Some (lit "true")
  | JBool false => Some (lit "false")
  | JNumber repr => Some (if is_non_finite repr then lit "null" else repr)
  | JString s => Some (QuoteJSONString s)
  | JArray items =>
      Some (lit "[" ++
            join (lit ",")
              (map (fun item =>
                      match SerializeJSONProperty item with
                      | Some text => text
                      | None => lit "null"
                      end) items)
            ++ lit "]")
  | JObject props =>
      Some (lit "{" ++
            join (lit ",")
              ((fix members (ps : list (jsstring * jsvalue)) : list jsstring :=
                  match ps with
                  | [] => []
                  | (k, x) :: rest =>
                      match SerializeJSONProperty x with
                      | Some text =>
                          (QuoteJSONString k ++ lit ":" ++ text) :: members rest
                      | None => members rest
                      end
                  end) props)
            ++ lit "}")
  end.

(** [JSON.stringify(v)] *)
Definition JSON_stringify (v : jsvalue) : option jsstring :=
  SerializeJSONProperty v.

End JSValue.
Import JSValue.

(* ===================================================================== *)
(** ** The document and the network, as the script sees them *)
(* ===================================================================== *)

Module Dom.

(** An element the script builds: its local name, its class list, and the
    markup last assigned to its [innerHTML]. *)
Record element : Type := mkElement {
  localName : jsstring;
  classList : list jsstring;
  innerHTML : jsstring
}.

(** [document.createElement(tag)] *)
Definition createElement (tag : jsstring) : element :=
  mkElement tag [] [].

(** [el.classList.add(token)]: a token already present is not repeated. *)
Definition classList_add (token : jsstring) (el : element) : element :=
  if existsb (strict_eq token) (classList el)
  then el
  else mkElement (localName el) (classList el ++ [token]) (innerHTML el).

(** [el.innerHTML = markup] *)
Definition set_innerHTML (markup : jsstring) (el : element) : element :=
  mkElement (localName el) (classList el) markup.

(** The second argument of [fetch]. *)
Record RequestInit : Type := mkInit {
  method : jsstring;
  headers : list (jsstring * jsstring);
  body : option jsstring
}.

Record request : Type := mkRequest {
  url : jsstring;
  init : RequestInit
}.

(** What a fetch resolves to.  The script reads nothing of it but calls
    [json()] on it. *)
Record response : Type := mkResponse {
  status : N;
  bodyText : jsstring
}.

(** The effects the script has on its environment, in the order they
    happen. *)
Inductive effect : Type :=
| Appended (el : element)          (* chatLog.appendChild(el) *)
| Scrolled (top : N)               (* chatLog.scrollTop = top *)
| InputAssigned (s : jsstring)     (* userInput.value = s *)
| Requested (req : request).       (* fetch(url, init) *)

(** The state the script reads and writes: the content of [#user-input],
    the children and scroll offset of [#chat-log], and the trace of the
    effects so far.  The layout of the log belongs to the host: its
    viewport height, and the height of its content as a function of its
    children. *)
Record world : Type := mkWorld {
  userInput_value : jsstring;
  chatLog_children : list element;
  chatLog_scrollTop : N;
  chatLog_clientHeight : N;
  chatLog_contentHeight : list element -> N;
  trace : list effect
}.

(** [chatLog.scrollHeight]: the height of the content, and never less
    than the height of the viewport. *)
Definition scrollHeight (w : world) : N :=
  N.max (chatLog_contentHeight w (chatLog_children w))
    (chatLog_clientHeight w).

(** The largest offset the log can be scrolled to. *)
Definition maxScrollTop (w : world) : N :=
  scrollHeight w - chatLog_clientHeight w.

Definition record (e : effect) (w : world) : world :=
  mkWorld (userInput_value w) (chatLog_children w) (chatLog_scrollTop w)
    (chatLog_clientHeight w) (chatLog_contentHeight w) (trace w ++ [e]).

(** [userInput.value = s] *)
Definition set_value (s : jsstring) (w : world) : world :=
  record (InputAssigned s)
    (mkWorld s (chatLog_children w) (chatLog_scrollTop w)
       (chatLog_clientHeight w) (chatLog_contentHeight w) (trace w)).

(** [chatLog.appendChild(el)] *)
Definition appendChild (el : element) (w : world) : world :=
  record (Appended el)
    (mkWorld (userInput_value w) (chatLog_children w ++ [el])
       (chatLog_scrollTop w) (chatLog_clientHeight w)
       (chatLog_contentHeight w) (trace w)).

(** [chatLog.scrollTop = top]: the host clamps the offset to the
    scrollable range. *)
Definition set_scrollTop (top : N) (w : world) : world :=
  record (Scrolled top)
    (mkWorld (userInput_value w) (chatLog_children w)
       (N.min top (maxScrollTop w)) (chatLog_clientHeight w)
       (chatLog_contentHeight w) (trace w)).


Fixpoint requested (t : list effect) : list request :=
  match t with
  | [] => []
  | Requested req :: rest => req :: requested rest
  | _ :: rest => requested rest
  end.

End Dom.
Import Dom.

(* ===================================================================== *)
(** ** async / await *)
(* ===================================================================== *)

Module Async.

(** How a promise settles. *)
Inductive settled (A : Type) : Type :=
| Resolved (a : A)
| Rejected (e : exn).
Arguments Resolved {A} a.
Arguments Rejected {A} e.

(** The promises the script awaits, indexed by what they resolve to. *)
Inductive promise : Type -> Type :=
| fetch_promise (req : request) : promise response
| json_promise (r : response) : promise jsvalue.

(** The body of an async function: it returns, throws, makes a
    synchronous call on the document, or suspends on a promise and goes
    on from the way the promise settles. *)
Inductive async (A : Type) : Type :=
| Return (a : A)
| Throw (e : exn)
| Call (B : Type) (op : world -> world * B) (k : B -> async A)
| Await (B : Type) (p : promise B) (k : settled B -> async A).
Arguments Return {A} a.
Arguments Throw {A} e.
Arguments Call {A B} op k.
Arguments Await {A B} p k.

Fixpoint bind {A B : Type} (m : async A) (f : A -> async B) : async B :=
  match m with
  | Return a => f a
  | Throw e => Throw e
  | Call op k => Call op (fun b => bind (k b) f)
  | Await p k => Await p (fun s => bind (k s) f)
  end.

(** A call that changes the document and returns nothing. *)
Definition perform (f : world -> world) : async unit :=
  Call (fun w => (f w, tt)) Return.

(** A call that reads the document. *)
Definition read {B : Type} (f : world -> B) : async B :=
  Call (fun w => (w, f w)) Return.

(** [await p]: a rejection is rethrown at the await. *)
Definition await {B : Type} (p : promise B) : async B :=
  Await p (fun s =>
             match s with
             | Resolved b => Return b
             | Rejected e => Throw e
             end).

(** An abrupt completion carried by a sum. *)
Definition completion {B : Type} (c : exn + B) : async B :=
  match c with
  | inl e => Throw e
  | inr b => Return b
  end.

(** The host decides how each promise settles. *)
Definition host : Type := forall B : Type, promise B -> settled B.

(** The synchronous part of an activation: up to its first await, or to
    its end. *)
Fixpoint start {A : Type} (m : async A) (w : world) : world * async A :=
  match m with
  | Call op k => let (w', b) := op w in start (k b) w'
  | _ => (w, m)
  end.

(** A whole activation against a host, with nothing else interleaved:
    the final world and the way the function's own promise settles. *)
Fixpoint run {A : Type} (h : host) (m : async A) (w : world)
  : world * settled A :=
  match m with
  | Return a => (w, Resolved a)
  | Throw e => (w, Rejected e)
  | Call op k => let (w', b) := op w in run h (k b) w'
  | Await p k => run h (k (h _ p)) w
  end.

(** The activation is suspended on promise [p]. *)
Inductive suspended_on {A B : Type} (p : promise B) : async A -> Prop :=
| suspended_at (k : settled B -> async A) : suspended_on p (Await p k).

End Async.
Import Async.

Declare Scope async_scope.
Delimit Scope async_scope with async.
Notation "x <- m ;; k" := (bind m (fun x => k))
  (at level 100, m at next level, right associativity) : async_scope.
Notation "m ;; k" := (bind m (fun _ => k))
  (at level 100, right associativity) : async_scope.
Local Open Scope async_scope.

(* ===================================================================== *)
(** ** The script *)
(* ===================================================================== *)

Module Script.

(** The label [appendMessage] picks: [sender === 'user' ? 'You' : 'Bot']. *)
Definition label (sender : jsstring) : jsstring :=
  if strict_eq sender (lit "user") then lit "You" else lit "Bot".

(** The template literal assigned to [msgDiv.innerHTML], for the string
    [text] that [message] converts to. *)
Definition markup (sender : jsstring) (text : jsstring) : jsstring :=
  lit "<span class=" ++ dquote ++ sender ++ dquote ++ lit ">"
  ++ label sender ++ lit ":</span> " ++ text.

(** The [msgDiv] that [appendMessage] builds before attaching it. *)
Definition msgDiv (sender : jsstring) (text : jsstring) : element :=
  set_innerHTML (markup sender text)
    (classList_add (lit "message") (createElement (lit "div"))).

(** [appendMessage(sender, message)].  The element is built detached; the
    template literal converts [message] to a string, and when that throws
    the function is left before anything is attached. *)
Definition appendMessage (sender : jsstring) (message : jsvalue)
  : async unit :=
  text <- completion (ToString message) ;;
  perform (appendChild (msgDiv sender text)) ;;
  height <- read scrollHeight ;;
  perform (set_scrollTop height).

(** [fetch(url, init)]: the request goes out and a promise comes back. *)
Definition fetch (u : jsstring) (i : RequestInit)
  : async (promise response) :=
  Call (fun w => (record (Requested (mkRequest u i)) w,
                  fetch_promise (mkRequest u i))) Return.

(** The click listener of [#send-btn]. *)
Definition sendBtn_onclick : async unit :=
  value <- read userInput_value ;;
  let message := trim value in
  if negb (truthy message) then Return tt else
  appendMessage (lit "user") (JString message) ;;
  perform (set_value []) ;;
  pending <- fetch (lit "/chat")
               (mkInit (lit "POST")
                  [(lit "Content-Type", lit "application/json")]
                  (JSON_stringify (JObject [(lit "message", JString message)]))) ;;
  response <- await pending ;;
  data <- await (json_promise response) ;;
  reply <- completion (GetV data (lit "response")) ;;
  appendMessage (lit "bot") reply.

Record KeyboardEvent : Type := mkKey { key : jsstring }.

(** [sendBtn.click()]: a click event is dispatched at the button, which
    activates its one listener. *)
Definition sendBtn_click : async unit := sendBtn_onclick.

(** The keypress listener of [#user-input]. *)
Definition userInput_onkeypress (e : KeyboardEvent) : async unit :=
  if strict_eq (key e) (lit "Enter") then sendBtn_click else Return tt.

(** The two ways the user reaches the script. *)
Inductive ui_event : Type :=
| SendActivated
| KeyPressed (e : KeyboardEvent).

Definition dispatch (ev : ui_event) : async unit :=
  match ev with
  | SendActivated => sendBtn_onclick
  | KeyPressed e => userInput_onkeypress e
  end.

End Script.
Import Script.

(* ===================================================================== *)
(** ** Reading the log and the trace *)
(* ===================================================================== *)

Module Observe.

Fixpoint starts_with (prefix s : jsstring) : bool :=
  match prefix, s with
  | [], _ => true
  | c :: prefix', d :: s' => (c =? d) && starts_with prefix' s'
  | _ :: _, [] => false
  end.

(** An entry of the log shows its sender in the class of its leading
    [span]. *)
Definition entry_of (sender : jsstring) (el : element) : bool :=
  starts_with (lit "<span class=" ++ dquote ++ sender ++ dquote ++ lit ">")
    (innerHTML el).

(** The world after [appendMessage] has attached the entry of [text]. *)
Definition rendered (sender : jsstring) (text : jsstring) (w : world)
  : world :=
  set_scrollTop (scrollHeight (appendChild (msgDiv sender text) w))
    (appendChild (msgDiv sender text) w).

(** The request the click listener builds for trimmed text [message]. *)
Definition chat_request (message : jsstring) : request :=
  mkRequest (lit "/chat")
    (mkInit (lit "POST")
       [(lit "Content-Type", lit "application/json")]
       (JSON_stringify (JObject [(lit "message", JString message)]))).

(** The world when the click listener suspends on its fetch for
    [message]. *)
Definition echoed (message : jsstring) (w : world) : world :=
  record (Requested (chat_request message))
    (set_value [] (rendered (lit "user") message w)).

(** A value has a property of its own under [key]. *)
Definition has_property (v : jsvalue) (key : jsstring) : bool :=
  match v with
  | JObject props => existsb (fun kv => strict_eq (fst kv) key) props
  | _ => false
  end.

(** The values that are not objects: [undefined], [null], booleans,
    numbers and strings. *)
Definition is_primitive (v : jsvalue) : bool :=
  match v with
  | JArray _ | JObject _ => false
  | _ => true
  end.

(** What [JSON.parse] can produce: no [undefined] anywhere. *)
Fixpoint is_json (v : jsvalue) : bool :=
  match v with
  | JUndefined => false
  | JNull | JBool _ | JNumber _ | JString _ => true
  | JArray items => forallb is_json items
  | JObject props =>
      (fix all (ps : list (jsstring * jsvalue)) : bool :=
         match ps with
         | [] => true
         | (_, x) :: rest => is_json x && all rest
         end) props
  end.

(** A host that settles every fetch one way and every [json()] one
    way. *)
Definition scripted (f : settled response) (j : settled jsvalue) : host :=
  fun B p =>
    match p in promise T return settled T with
    | fetch_promise _ => f
    | json_promise _ => j
    end.

(** How the exchange of one send ends once the echo is on screen. *)
Definition exchange (h : host) (message : jsstring) (w1 : world)
  : world * settled unit :=
  match h _ (fetch_promise (chat_request message)) with
  | Rejected e => (w1, Rejected e)
  | Resolved r =>
      match h _ (json_promise r) with
      | Rejected e => (w1, Rejected e)
      | Resolved data =>
          match GetV data (lit "response") with
          | inl e => (w1, Rejected e)
          | inr reply =>
              match ToString reply with
              | inl e => (w1, Rejected e)
              | inr text => (rendered (lit "bot") text w1, Resolved tt)
              end
          end
      end
  end.

End Observe.
Import Observe.

(* ===================================================================== *)
(** ** Sample pages and hosts *)
(* ===================================================================== *)

(** A page just loaded, with [input] typed into the field: an empty log
    whose viewport is 100 units high and in which every entry takes 30. *)
Definition fresh_page (input : jsstring) : world :=
  mkWorld input [] 0 100 (fun entries => 30 * N.of_nat (List.length entries)) [].

(** A page whose log already overflows. *)
Definition busy_page (input : jsstring) : world :=
  mkWorld input
    [msgDiv (lit "user") (lit "a"); msgDiv (lit "bot") (lit "b");
     msgDiv (lit "user") (lit "c"); msgDiv (lit "bot") (lit "d")]
    20 100 (fun entries => 30 * N.of_nat (List.length entries)) [].

(** A backend that answers [{ "response": "Hi there" }]. *)
Definition greeting_host : host :=
  scripted (Resolved (mkResponse 200 (lit "{...}")))
    (Resolved (JObject [(lit "response", JString (lit "Hi there"))])).

(** A backend that cannot be reached. *)
Definition offline_host : host :=
  scripted (Rejected TypeError) (Rejected TypeError).

(** A backend that answers with an empty JSON object. *)
Definition empty_object_host : host :=
  scripted (Resolved (mkResponse 200 (lit "{}"))) (Resolved (JObject [])).



(** A backend that answers with the JSON text [null]. *)
Definition null_host : host :=
  scripted (Resolved (mkResponse 200 (lit "null"))) (Resolved JNull).

(* ===================================================================== *)
(** ** The specification's sentences on failures *)
(* ===================================================================== *)





(** The specification's sentence on a body without the reply field, at one
    page and host: whatever JSON value arrives without a [response]
    property, a bot entry reading [undefined] is appended and the
    activation is fulfilled. *)
Definition any_json_without_reply_renders (h : host) (w : world) : Prop :=
  forall (r : response) (data : jsvalue),
    h _ (fetch_promise (chat_request (trim (userInput_value w)))) = Resolved r ->
    h _ (json_promise r) = Resolved data ->
    is_json data = true ->
    has_property data (lit "response") = false ->
    run h (dispatch SendActivated) w
    = (rendered (lit "bot") (lit "undefined")
         (echoed (trim (userInput_value w)) w), Resolved tt).

(* ===================================================================== *)
(** ** The body on the wire *)
(* ===================================================================== *)

Module Wire.

(** The value of a hexadecimal digit, in either case. *)
Definition unhex (c : N) : option N :=
  if (0x30 <=? c) && (c <=? 0x39) then Some (c - 0x30)
  else if (0x61 <=? c) && (c <=? 0x66) then Some (c - 0x57)
  else if (0x41 <=? c) && (c <=? 0x46) then Some (c - 0x37)
  else None.

(** The character a two-character JSON escape stands for. *)
Definition unescape (c : N) : option N :=
  if c =? 0x22 then Some 0x22
  else if c =? 0x5C then Some 0x5C
  else if c =? 0x2F then Some 0x2F
  else if c =? 0x62 then Some 0x08
  else if c =? 0x66 then Some 0x0C
  else if c =? 0x6E then Some 0x0A
  else if c =? 0x72 then Some 0x0D
  else if c =? 0x74 then Some 0x09
  else None.

Definition prepend (c : N) (r : option (jsstring * jsstring))
  : option (jsstring * jsstring) :=
  match r with
  | Some (text, rest) => Some (c :: text, rest)
  | None => None
  end.

(** Reading a JSON string literal from just after its opening quote: the
    code units it denotes and what follows its closing quote.  Raw control
    characters and malformed escapes are refused, as the JSON grammar
    does. *)
Fixpoint unquote_units (s : jsstring) : option (jsstring * jsstring) :=
  match s with
  | [] => None
  | c :: rest =>
      if c =? 0x22 then Some ([], rest)
      else if c =? 0x5C then
        match rest with
        | [] => None
        | e :: rest1 =>
            if e =? 0x75 then
              match rest1 with
              | a :: b :: c' :: d :: rest2 =>
                  match unhex a, unhex b, unhex c', unhex d with
                  | Some x, Some y, Some z, Some u =>
                      prepend (((x * 16 + y) * 16 + z) * 16 + u)
                        (unquote_units rest2)
                  | _, _, _, _ => None
                  end
              | _ => None
              end
            else
              match unescape e with
              | Some u => prepend u (unquote_units rest1)
              | None => None
              end
        end
      else if c <? 0x20 then None
      else prepend c (unquote_units rest)
  end.

(** [s] without the prefix [prefix], when it starts with it. *)
Fixpoint strip_prefix (prefix s : jsstring) : option jsstring :=
  match prefix, s with
  | [], _ => Some s
  | c :: prefix', d :: s' => if c =? d then strip_prefix prefix' s' else None
  | _ :: _, [] => None
  end.

(** The message a JSON parser reads from a body of the one shape the
    click listener writes: an object with the single member [message]
    whose value is a string literal, without insignificant whitespace. *)
Definition read_chat_body (body : jsstring) : option jsstring :=
  match strip_prefix
          (lit "{" ++ dquote ++ lit "message" ++ dquote ++ lit ":" ++ dquote)
          body with
  | None => None
  | Some literal =>
      match unquote_units literal with
      | Some (text, rest) => if strict_eq rest (lit "}") then Some text else None
      | None => None
      end
  end.

End Wire.
Import Wire.

(* ===================================================================== *)
(** ** The user and the event loop *)
(* ===================================================================== *)

Module Session.

(** The user edits the input: its content becomes [s].  Nothing of the
    script runs. *)
Definition type_input (s : jsstring) (w : world) : world :=
  mkWorld s (chatLog_children w) (chatLog_scrollTop w)
    (chatLog_clientHeight w) (chatLog_contentHeight w) (trace w).

(** The log shows its newest entry. *)
Definition at_bottom (w : world) : Prop :=
  chatLog_scrollTop w = maxScrollTop w.

(** A backend that answers every request with [{ "response": reply }]. *)
Definition answering (reply : jsstring) : host :=
  scripted (Resolved (mkResponse 200 []))
    (Resolved (JObject [(lit "response", JString reply)])).

(** One turn taken to its end before anything else happens: the user
    types [input] and activates the send control, and host [h] settles the
    exchange. *)
Definition turn (h : host) (input : jsstring) (w : world) : world :=
  fst (run h (dispatch SendActivated) (type_input input w)).

(** Turns one after the other. *)
Fixpoint session (turns : list (host * jsstring)) (w : world) : world :=
  match turns with
  | [] => w
  | (h, input) :: rest => session rest (turn h input w)
  end.

(** The requests a list of turns gives rise to: one for each input that
    does not trim to the empty string. *)
Fixpoint session_requests (turns : list (host * jsstring)) : list request :=
  match turns with
  | [] => []
  | (_, input) :: rest =>
      if truthy (trim input)
      then chat_request (trim input) :: session_requests rest
      else session_requests rest
  end.

(** The entries of a list of answered turns: echo and reply, turn by
    turn. *)
Fixpoint transcript (exchanges : list (jsstring * jsstring)) : list element :=
  match exchanges with
  | [] => []
  | (input, reply) :: rest =>
      msgDiv (lit "user") (trim input)
      :: msgDiv (lit "bot") reply
      :: transcript rest
  end.

(** The turns of a list of exchanges, each against a backend that gives
    its reply. *)
Definition answered (exchanges : list (jsstring * jsstring))
  : list (host * jsstring) :=
  map (fun x => (answering (snd x), fst x)) exchanges.

(** Two sends that overlap: the user sends [a], then sends [b] while the
    first exchange is still pending; the second exchange is settled first
    (by [hB]), the first one after it (by [hA]). *)
Definition overlapped (hA hB : host) (a b : jsstring) (w : world) : world :=
  let first := start (dispatch SendActivated) (type_input a w) in
  let second := start (dispatch SendActivated) (type_input b (fst first)) in
  let afterB := fst (run hB (snd second) (fst second)) in
  fst (run hA (snd first) afterB).

End Session.
Import Session.

(* ===================================================================== *)
(** ** Strings: facts about [trim] *)
(* ===================================================================== *)

Section TrimFacts.

Lemma strict_eq_refl (s : jsstring) : strict_eq s s = true.
Proof.
  induction s as [|c s IH]; simpl; [reflexivity|].
  now rewrite N.eqb_refl, IH.
Qed.

Lemma trimStart_nil (s : jsstring) :
  trimStart s = [] <-> forallb is_whitespace s = true.
Proof.
  induction s as [|c s IH]; simpl; [tauto|].
  destruct (is_whitespace c); simpl; [exact IH|].
  split; discriminate.
Qed.

(** What is left after [trimStart] is blank only if it is empty. *)
Lemma trimStart_blank (s : jsstring) :
  forallb is_whitespace (trimStart s) = true -> trimStart s = [].
Proof.
  induction s as [|c s IH]; simpl; [reflexivity|].
  destruct (is_whitespace c) eqn:Hc; [exact IH|].
  simpl. rewrite Hc. discriminate.
Qed.

Lemma forallb_rev {A} (f : A -> bool) (l : list A) :
  forallb f (rev l) = forallb f l.
Proof.
  induction l as [|a l IH]; simpl; [reflexivity|].
  rewrite forallb_app, IH. simpl. rewrite andb_true_r. apply andb_comm.
Qed.

(** The trimmed form is empty exactly for the empty string and the
    strings of whitespace only. *)
Lemma trim_nil (s : jsstring) :
  trim s = [] <-> forallb is_whitespace s = true.
Proof.
  unfold trim, trimEnd. split.
  - intros H. apply (f_equal (@rev N)) in H. rewrite rev_involutive in H.
    simpl in H. apply trimStart_nil in H. rewrite forallb_rev in H.
    apply trimStart_nil. now apply trimStart_blank.
  - intros H. apply trimStart_nil in H. rewrite H. reflexivity.
Qed.

End TrimFacts.

(* ===================================================================== *)
(** ** The monad: running a sequence *)
(* ===================================================================== *)

Section RunFacts.

Context {A B : Type}.

Lemma run_bind (h : host) (m : async A) (f : A -> async B) (w : world) :
  run h (bind m f) w =
  match run h m w with
  | (w', Resolved a) => run h (f a) w'
  | (w', Rejected e) => (w', Rejected e)
  end.
Proof.
  revert w. induction m as [a|e|C op k IH|C p k IH]; intro w; simpl.
  - reflexivity.
  - reflexivity.
  - destruct (op w) as [w' c]. apply IH.
  - apply IH.
Qed.

(** Running an activation to its end goes through the state at its
    first suspension. *)
Lemma run_start (h : host) (m : async A) (w : world) :
  run h m w = run h (snd (start m w)) (fst (start m w)).
Proof.
  revert w. induction m as [a|e|C op k IH|C p k IH]; intro w; simpl;
    try reflexivity.
  destruct (op w) as [w' c]. apply IH.
Qed.

End RunFacts.

(* ===================================================================== *)
(** ** The script, step by step *)
(* ===================================================================== *)

Section ScriptFacts.

Variable h : host.

Local Arguments lit : simpl never.
Local Arguments JSON_stringify : simpl never.

(** [appendMessage] attaches the entry when its message converts to a
    string, and leaves the page as it is when the conversion throws. *)
Lemma run_appendMessage (sender : jsstring) (message : jsvalue) (w : world) :
  run h (appendMessage sender message) w
  = match ToString message with
    | inl e => (w, Rejected e)
    | inr text => (rendered sender text w, Resolved tt)
    end.
Proof.
  unfold appendMessage. destruct (ToString message) as [e|text]; reflexivity.
Qed.

Lemma run_blank (w : world) :
  trim (userInput_value w) = [] ->
  run h sendBtn_onclick w = (w, Resolved tt).
Proof.
  intros H. unfold sendBtn_onclick. simpl. rewrite H. reflexivity.
Qed.

Lemma start_blank (w : world) :
  trim (userInput_value w) = [] ->
  start sendBtn_onclick w = (w, Return tt).
Proof.
  intros H. unfold sendBtn_onclick. simpl. rewrite H. reflexivity.
Qed.

Lemma run_send (w : world) :
  trim (userInput_value w) <> [] ->
  run h sendBtn_onclick w
  = exchange h (trim (userInput_value w))
      (echoed (trim (userInput_value w)) w).
Proof.
  intros H. unfold sendBtn_onclick, exchange, chat_request. simpl.
  destruct (trim (userInput_value w)) as [|c t] eqn:Ht; [congruence|].
  simpl. fold (chat_request (c :: t)).
  destruct (h response (fetch_promise (chat_request (c :: t)))) as [r|e];
    simpl; [|reflexivity].
  destruct (h jsvalue (json_promise r)) as [data|e]; simpl; [|reflexivity].
  destruct (GetV data (lit "response")) as [e|reply]; simpl;
    [reflexivity|].
  rewrite run_appendMessage.
  destruct (ToString reply) as [e|text]; reflexivity.
Qed.

Lemma start_send (w : world) :
  trim (userInput_value w) <> [] ->
  fst (start sendBtn_onclick w) = echoed (trim (userInput_value w)) w
  /\ suspended_on (fetch_promise (chat_request (trim (userInput_value w))))
       (snd (start sendBtn_onclick w)).
Proof.
  intros H. unfold sendBtn_onclick. simpl.
  destruct (trim (userInput_value w)) as [|c t] eqn:Ht; [congruence|].
  simpl. split; [reflexivity|constructor].
Qed.

End ScriptFacts.

Section ExchangeFacts.

Variable h : host.

Lemma rendered_children (sender : jsstring) (text : jsstring) (w : world) :
  chatLog_children (rendered sender text w)
  = chatLog_children w ++ [msgDiv sender text].
Proof. reflexivity. Qed.

Lemma rendered_trace (sender : jsstring) (text : jsstring) (w : world) :
  trace (rendered sender text w)
  = trace w ++ [Appended (msgDiv sender text);
                Scrolled (scrollHeight (appendChild (msgDiv sender text) w))].
Proof. unfold rendered, set_scrollTop, appendChild, record. simpl.
       now rewrite <- app_assoc. Qed.

Lemma rendered_at_bottom (sender : jsstring) (text : jsstring) (w : world) :
  chatLog_scrollTop (rendered sender text w)
  = maxScrollTop (rendered sender text w).
Proof.
  unfold rendered, set_scrollTop, maxScrollTop, scrollHeight. simpl. lia.
Qed.

Lemma echoed_children (t : jsstring) (w : world) :
  chatLog_children (echoed t w)
  = chatLog_children w ++ [msgDiv (lit "user") t].
Proof. reflexivity. Qed.

Lemma echoed_trace (t : jsstring) (w : world) :
  trace (echoed t w)
  = trace w ++ [Appended (msgDiv (lit "user") t);
                Scrolled (scrollHeight
                            (appendChild (msgDiv (lit "user") t) w));
                InputAssigned [];
                Requested (chat_request t)].
Proof.
  unfold echoed, set_value, record. cbn [trace].
  rewrite rendered_trace. now rewrite <- !app_assoc.
Qed.

Lemma echoed_at_bottom (t : jsstring) (w : world) :
  chatLog_scrollTop (echoed t w) = maxScrollTop (echoed t w).
Proof.
  change (chatLog_scrollTop (rendered (lit "user") t w)
          = maxScrollTop (rendered (lit "user") t w)).
  apply rendered_at_bottom.
Qed.

(** The exchange either leaves the echo as it is and rejects, or adds
    one bot entry and fulfils. *)
Lemma exchange_cases (t : jsstring) (w1 : world) :
  (exists e, exchange h t w1 = (w1, Rejected e))
  \/ (exists text,
          exchange h t w1 = (rendered (lit "bot") text w1, Resolved tt)).
Proof.
  unfold exchange.
  destruct (h response (fetch_promise (chat_request t))) as [r|e];
    [|left; now exists e].
  destruct (h jsvalue (json_promise r)) as [data|e]; [|left; now exists e].
  destruct (GetV data (lit "response")) as [e|reply]; [left; now exists e|].
  destruct (ToString reply) as [e|text];
    [left; now exists e | right; now exists text].
Qed.


Lemma requested_app (t1 t2 : list effect) :
  requested (t1 ++ t2) = requested t1 ++ requested t2.
Proof.
  induction t1 as [|[el|top|s|req] t1 IH]; simpl; rewrite ?IH; reflexivity.
Qed.

Lemma entry_of_user_echo (text : jsstring) :
  entry_of (lit "user") (msgDiv (lit "user") text) = true.
Proof. reflexivity. Qed.

Lemma entry_of_user_reply (text : jsstring) :
  entry_of (lit "user") (msgDiv (lit "bot") text) = false.
Proof. reflexivity. Qed.

End ExchangeFacts.

(* ===================================================================== *)
(** ** The body of the request, written and read back *)
(* ===================================================================== *)

Section WireFacts.

Lemma unhex_hex_digit (n : N) : n < 16 -> unhex (hex_digit n) = Some n.
Proof.
  intros Hn. unfold hex_digit, unhex.
  destruct (n <? 10) eqn:Hdec.
  - apply N.ltb_lt in Hdec.
    replace ((0x30 <=? 0x30 + n) && (0x30 + n <=? 0x39)) with true
      by (symmetry; apply andb_true_iff; split; apply N.leb_le; lia).
    f_equal. lia.
  - apply N.ltb_ge in Hdec.
    replace ((0x30 <=? 0x57 + n) && (0x57 + n <=? 0x39)) with false
      by (symmetry; apply andb_false_iff; right; apply N.leb_gt; lia).
    replace ((0x61 <=? 0x57 + n) && (0x57 + n <=? 0x66)) with true
      by (symmetry; apply andb_true_iff; split; apply N.leb_le; lia).
    f_equal. lia.
Qed.

Lemma div_by_16 (c : N) :
  c / 256 = c / 16 / 16 /\ c / 4096 = c / 16 / 16 / 16.
Proof. rewrite !N.Div0.div_div. split; reflexivity. Qed.

(** Four hexadecimal digits give back a 16-bit code unit. *)
Lemma hex_value (c : N) :
  c < 65536 ->
  (((c / 4096) mod 16 * 16 + (c / 256) mod 16) * 16 + (c / 16) mod 16) * 16
  + c mod 16 = c.
Proof.
  intros Hc. destruct (div_by_16 c) as [-> ->].
  pose proof (N.div_mod' c 16) as D0.
  pose proof (N.div_mod' (c / 16) 16) as D1.
  pose proof (N.div_mod' (c / 16 / 16) 16) as D2.
  pose proof (N.div_mod' (c / 16 / 16 / 16) 16) as D3.
  pose proof (N.mod_lt c 16) as M0.
  pose proof (N.mod_lt (c / 16) 16) as M1.
  pose proof (N.mod_lt (c / 16 / 16) 16) as M2.
  pose proof (N.mod_lt (c / 16 / 16 / 16) 16) as M3.
  generalize dependent (c mod 16).
  generalize dependent ((c / 16) mod 16).
  generalize dependent ((c / 16 / 16) mod 16).
  generalize dependent ((c / 16 / 16 / 16) mod 16).
  generalize dependent (c / 16 / 16 / 16 / 16).
  generalize dependent (c / 16 / 16 / 16).
  generalize dependent (c / 16 / 16).
  generalize dependent (c / 16).
  intros. lia.
Qed.

Lemma unquote_escape (a b c d : N) (tail : jsstring) :
  unquote_units (0x5C :: 0x75 :: a :: b :: c :: d :: tail)
  = match unhex a, unhex b, unhex c, unhex d with
    | Some x, Some y, Some z, Some u =>
        prepend (((x * 16 + y) * 16 + z) * 16 + u) (unquote_units tail)
    | _, _, _, _ => None
    end.
Proof. reflexivity. Qed.

Lemma unquote_plain (c : N) (tail : jsstring) :
  (c =? 0x22) = false -> (c =? 0x5C) = false -> (c <? 0x20) = false ->
  unquote_units (c :: tail) = prepend c (unquote_units tail).
Proof.
  intros Hq Hb Hc. cbn [unquote_units]. now rewrite Hq, Hb, Hc.
Qed.

Lemma unquote_UnicodeEscape (c : N) (tail : jsstring) :
  c < 65536 ->
  unquote_units (UnicodeEscape c ++ tail) = prepend c (unquote_units tail).
Proof.
  intros Hc. unfold UnicodeEscape. cbn [app]. rewrite unquote_escape.
  rewrite !unhex_hex_digit by (apply N.mod_lt; discriminate).
  now rewrite hex_value.
Qed.

(** One escaped code unit reads back as itself. *)
Lemma unquote_quote_unit (c : N) (tail : jsstring) :
  unquote_units (quote_unit c ++ tail) = prepend c (unquote_units tail).
Proof.
  unfold quote_unit.
  destruct (c =? 0x08) eqn:E1; [apply N.eqb_eq in E1; now subst|].
  destruct (c =? 0x09) eqn:E2; [apply N.eqb_eq in E2; now subst|].
  destruct (c =? 0x0A) eqn:E3; [apply N.eqb_eq in E3; now subst|].
  destruct (c =? 0x0C) eqn:E4; [apply N.eqb_eq in E4; now subst|].
  destruct (c =? 0x0D) eqn:E5; [apply N.eqb_eq in E5; now subst|].
  destruct (c =? 0x22) eqn:E6; [apply N.eqb_eq in E6; now subst|].
  destruct (c =? 0x5C) eqn:E7; [apply N.eqb_eq in E7; now subst|].
  destruct ((c <? 0x20) || is_leading_surrogate c || is_trailing_surrogate c)
    eqn:E8.
  - apply unquote_UnicodeEscape.
    unfold is_leading_surrogate, is_trailing_surrogate in E8.
    apply orb_true_iff in E8 as [E8|E8];
      [apply orb_true_iff in E8 as [E8|E8]|].
    + apply N.ltb_lt in E8. lia.
    + apply andb_true_iff in E8 as [_ E8]. apply N.leb_le in E8. lia.
    + apply andb_true_iff in E8 as [_ E8]. apply N.leb_le in E8. lia.
  - apply orb_false_iff in E8 as [E8 _]. apply orb_false_iff in E8 as [E8 _].
    cbn [app]. now apply unquote_plain.
Qed.

(** A surrogate pair, written as it is, reads back as it is. *)
Lemma unquote_pair (c d : N) (tail : jsstring) :
  is_leading_surrogate c && is_trailing_surrogate d = true ->
  unquote_units (c :: d :: tail) = prepend c (prepend d (unquote_units tail)).
Proof.
  unfold is_leading_surrogate, is_trailing_surrogate. intros H.
  apply andb_true_iff in H as [Hc Hd].
  apply andb_true_iff in Hc as [Hc _]. apply andb_true_iff in Hd as [Hd _].
  apply N.leb_le in Hc, Hd.
  rewrite unquote_plain, unquote_plain;
    try reflexivity;
    try (apply N.eqb_neq; lia); try (apply N.ltb_ge; lia).
Qed.

Lemma quote_units_two (c d : N) (s : jsstring) :
  quote_units (c :: d :: s)
  = if is_leading_surrogate c && is_trailing_surrogate d
    then c :: d :: quote_units s
    else quote_unit c ++ quote_units (d :: s).
Proof. reflexivity. Qed.

(** The induction carries the statement for [s] and for [c :: s], as
    [quote_units] looks one code unit ahead. *)
Lemma unquote_quote_units_step (s : jsstring) :
  (forall rest,
      unquote_units (quote_units s ++ dquote ++ rest) = Some (s, rest))
  /\ (forall c rest,
         unquote_units (quote_units (c :: s) ++ dquote ++ rest)
         = Some (c :: s, rest)).
Proof.
  induction s as [|d s [IHs IHds]].
  - split; [reflexivity|].
    intros c rest. cbn [quote_units]. now rewrite unquote_quote_unit.
  - split; [exact (IHds d)|].
    intros c rest. rewrite quote_units_two.
    destruct (is_leading_surrogate c && is_trailing_surrogate d) eqn:Hpair.
    + cbn [app]. rewrite (unquote_pair c d _ Hpair), IHs. reflexivity.
    + rewrite <- app_assoc, unquote_quote_unit, IHds. reflexivity.
Qed.

Lemma unquote_quote_units (s rest : jsstring) :
  unquote_units (quote_units s ++ dquote ++ rest) = Some (s, rest).
Proof. apply unquote_quote_units_step. Qed.

Lemma strip_prefix_app (prefix s : jsstring) :
  strip_prefix prefix (prefix ++ s) = Some s.
Proof.
  induction prefix as [|c prefix IH]; simpl; [now destruct s|].
  now rewrite N.eqb_refl.
Qed.

(** The body the click listener writes for [message]. *)
Lemma chat_body_shape (message : jsstring) :
  body (init (chat_request message))
  = Some ((lit "{" ++ dquote ++ lit "message" ++ dquote ++ lit ":" ++ dquote)
          ++ quote_units message ++ dquote ++ lit "}").
Proof.
  unfold chat_request, JSON_stringify, QuoteJSONString. simpl.
  now rewrite <- !app_assoc.
Qed.

Lemma chat_body_reads (message : jsstring) :
  forall b, body (init (chat_request message)) = Some b ->
            read_chat_body b = Some message.
Proof.
  intros b Hb. rewrite chat_body_shape in Hb.
  assert (Eb : b = (lit "{" ++ dquote ++ lit "message" ++ dquote
                    ++ lit ":" ++ dquote)
                   ++ quote_units message ++ dquote ++ lit "}")
    by congruence.
  rewrite Eb. unfold read_chat_body.
  rewrite strip_prefix_app, unquote_quote_units. reflexivity.
Qed.

End WireFacts.

(* ===================================================================== *)
(** ** Properties of a send *)
(* ===================================================================== *)

(** C1: when the content of the input trims to the empty string, that is
    when it is empty or whitespace only, the click listener does nothing: it
    ends at once without suspending, the log gets no entry, no request goes
    out and the input keeps its content. *)
Theorem blank_send_is_noop (h : host) (w : world) :
  trim (userInput_value w) = []
  \/ forallb is_whitespace (userInput_value w) = true ->
  start (dispatch SendActivated) w = (w, Return tt)
  /\ run h (dispatch SendActivated) w = (w, Resolved tt)
  /\ chatLog_children (fst (run h (dispatch SendActivated) w))
     = chatLog_children w
  /\ requested (trace (fst (run h (dispatch SendActivated) w)))
     = requested (trace w)
  /\ userInput_value (fst (run h (dispatch SendActivated) w))
     = userInput_value w.
Proof.
  intros H.
  assert (Hblank : trim (userInput_value w) = []).
  { destruct H as [H|H]; [exact H | now apply trim_nil]. }
  simpl dispatch.
  rewrite (run_blank h w Hblank), (start_blank w Hblank). simpl.
  repeat split.
Qed.

Lemma blank_send_is_noop_witness :
  forallb is_whitespace (userInput_value (busy_page [0x20; 0x09; 0xA0; 0x3000]))
  = true
  /\ run greeting_host (dispatch SendActivated)
       (busy_page [0x20; 0x09; 0xA0; 0x3000])
     = (busy_page [0x20; 0x09; 0xA0; 0x3000], Resolved tt).
Proof.
  split; [reflexivity|].
  apply (blank_send_is_noop greeting_host (busy_page [0x20; 0x09; 0xA0; 0x3000])).
  right. reflexivity.
Defined.

(** C2: when the content of the input trims to a non-empty string, one
    activation of the click listener appends exactly one user entry, whose
    text is the trimmed string, and leaves the input empty. *)
Theorem send_echoes_trimmed_input (h : host) (w : world) :
  trim (userInput_value w) <> [] ->
  let t := trim (userInput_value w) in
  let w1 := fst (start (dispatch SendActivated) w) in
  let w2 := fst (run h (dispatch SendActivated) w) in
  chatLog_children w1
  = chatLog_children w ++ [msgDiv (lit "user") t]
  /\ innerHTML (msgDiv (lit "user") t)
     = lit "<span class=" ++ dquote ++ lit "user" ++ dquote
       ++ lit ">You:</span> " ++ t
  /\ userInput_value w1 = []
  /\ userInput_value w2 = []
  /\ exists later,
       chatLog_children w2
       = chatLog_children w ++ msgDiv (lit "user") t :: later
       /\ filter (entry_of (lit "user"))
            (msgDiv (lit "user") t :: later)
          = [msgDiv (lit "user") t].
Proof.
  intros H t w1 w2. subst w1 w2. simpl dispatch.
  destruct (start_send w H) as [Hw1 _]. rewrite Hw1, (run_send h w H).
  fold t. repeat split.
  - destruct (exchange_cases h t (echoed t w)) as [[e ->]|[reply ->]];
      reflexivity.
  - destruct (exchange_cases h t (echoed t w)) as [[e ->]|[reply ->]].
    + exists []. split; [reflexivity|].
      cbn [filter]. now rewrite entry_of_user_echo.
    + exists [msgDiv (lit "bot") reply]. split.
      * simpl fst. rewrite rendered_children, echoed_children.
        now rewrite <- app_assoc.
      * cbn [filter].
        now rewrite entry_of_user_echo, entry_of_user_reply.
Qed.

Lemma send_echoes_trimmed_input_witness :
  trim (userInput_value (fresh_page (lit "  Hello  "))) <> []
  /\ chatLog_children
       (fst (start (dispatch SendActivated) (fresh_page (lit "  Hello  "))))
     = [msgDiv (lit "user") (lit "Hello")]
  /\ userInput_value
       (fst (run greeting_host (dispatch SendActivated)
               (fresh_page (lit "  Hello  "))))
     = [].
Proof.
  split; [discriminate|].
  destruct (send_echoes_trimmed_input greeting_host
              (fresh_page (lit "  Hello  ")))
    as (Hlog & _ & _ & Hinput & _); [discriminate|].
  split; [exact Hlog | exact Hinput].
Defined.

(** C3: when the content of the input trims to a non-empty string [t], one
    activation of the click listener issues exactly one request: a POST to
    [/chat] with a JSON content type, whose body is the serialisation of
    the object [{ message: t }]; read as JSON, the body is an object whose
    member [message] is the string [t], whatever [t] contains. *)
Theorem send_issues_one_chat_request (h : host) (w : world) :
  trim (userInput_value w) <> [] ->
  let t := trim (userInput_value w) in
  let w2 := fst (run h (dispatch SendActivated) w) in
  exists req,
    requested (trace w2) = requested (trace w) ++ [req]
    /\ url req = lit "/chat"
    /\ method (init req) = lit "POST"
    /\ headers (init req) = [(lit "Content-Type", lit "application/json")]
    /\ body (init req)
       = JSON_stringify (JObject [(lit "message", JString t)])
    /\ body (init req)
       = Some (lit "{" ++ dquote ++ lit "message" ++ dquote ++ lit ":"
               ++ QuoteJSONString t ++ lit "}")
    /\ exists b, body (init req) = Some b /\ read_chat_body b = Some t.
Proof.
  intros H t w2. subst w2. simpl dispatch. rewrite (run_send h w H). fold t.
  exists (chat_request t). split; [|repeat split].
  - destruct (exchange_cases h t (echoed t w)) as [[e ->]|[text ->]];
      simpl fst.
    + rewrite echoed_trace, requested_app. reflexivity.
    + rewrite rendered_trace, requested_app, echoed_trace, requested_app.
      simpl. now rewrite app_nil_r.
  - eexists. split; [apply chat_body_shape|].
    apply chat_body_reads, chat_body_shape.
Qed.

Lemma send_issues_one_chat_request_witness :
  (trim (userInput_value (fresh_page (lit "  Hello  "))) <> []
   /\ exists req,
        requested
          (trace (fst (run greeting_host (dispatch SendActivated)
                         (fresh_page (lit "  Hello  ")))))
        = [req]
        /\ url req = lit "/chat"
        /\ method (init req) = lit "POST"
        /\ body (init req)
           = Some (lit "{" ++ dquote ++ lit "message" ++ dquote ++ lit ":"
                   ++ dquote ++ lit "Hello" ++ dquote ++ lit "}"))
  /\ (trim (userInput_value
              (fresh_page [0x20; 0x61; 0x22; 0x09; 0x62; 0x5C; 0x20]))
      <> []
      /\ exists req b,
           requested
             (trace (fst (run greeting_host (dispatch SendActivated)
                            (fresh_page
                               [0x20; 0x61; 0x22; 0x09; 0x62; 0x5C; 0x20]))))
           = [req]
           /\ body (init req) = Some b
           /\ b = lit "{" ++ dquote ++ lit "message" ++ dquote ++ lit ":"
                  ++ dquote
                  ++ [0x61; 0x5C; 0x22; 0x5C; 0x74; 0x62; 0x5C; 0x5C]
                  ++ dquote ++ lit "}"
           /\ read_chat_body b = Some [0x61; 0x22; 0x09; 0x62; 0x5C]).
Proof.
  split.
  - split; [discriminate|].
    destruct (send_issues_one_chat_request greeting_host
                (fresh_page (lit "  Hello  ")))
      as (req & Hone & Hurl & Hmethod & _ & _ & Hbody & _); [discriminate|].
    exists req. repeat split; assumption.
  - split; [discriminate|].
    destruct (send_issues_one_chat_request greeting_host
                (fresh_page [0x20; 0x61; 0x22; 0x09; 0x62; 0x5C; 0x20]))
      as (req & Hone & _ & _ & _ & _ & Hbody & b & Hb & Hread);
      [discriminate|].
    exists req, b. split; [exact Hone|]. split; [exact Hb|].
    split; [|exact Hread].
    rewrite Hb in Hbody. now injection Hbody.
Defined.

(* ===================================================================== *)
(** ** When the exchange goes wrong *)
(* ===================================================================== *)




(** C5, as stated, fails: the JSON text [null] parses, has no reply field,
    and reading [response] off it throws, so no bot entry appears and the
    activation is rejected with a TypeError. *)
Lemma null_body_renders_nothing :
  ~ any_json_without_reply_renders null_host (fresh_page (lit "Hello"))
  /\ snd (run null_host (dispatch SendActivated) (fresh_page (lit "Hello")))
     = Rejected TypeError
  /\ chatLog_children
       (fst (run null_host (dispatch SendActivated) (fresh_page (lit "Hello"))))
     = [msgDiv (lit "user") (lit "Hello")].
Proof.
  split; [|split; reflexivity].
  intros Hclaim.
  specialize (Hclaim (mkResponse 200 (lit "null")) JNull
                eq_refl eq_refl eq_refl eq_refl).
  discriminate Hclaim.
Qed.

Lemma GetV_missing (data : jsvalue) (key : jsstring) :
  is_json data = true ->
  data <> JNull ->
  has_property data key = false ->
  GetV data key = inr JUndefined.
Proof.
  intros Hjson Hnull Hmiss.
  destruct data as [| |b|n|s|items|props]; simpl in *;
    try reflexivity; try discriminate; try congruence.
  f_equal. clear Hjson Hnull.
  induction props as [|[k v] props IH]; simpl in *; [reflexivity|].
  apply orb_false_iff in Hmiss as [Hk Hrest]. rewrite Hk. auto.
Qed.

(** C5, amended: when the body parses to a JSON value other than [null]
    that has no [response] property, the listener still appends a bot
    entry, whose text is the rendering of the missing property,
    [undefined], and the activation is fulfilled: no error is signalled. *)
Theorem missing_reply_renders_undefined
  (h : host) (w : world) (r : response) (data : jsvalue) :
  trim (userInput_value w) <> [] ->
  h _ (fetch_promise (chat_request (trim (userInput_value w)))) = Resolved r ->
  h _ (json_promise r) = Resolved data ->
  is_json data = true ->
  data <> JNull ->
  has_property data (lit "response") = false ->
  let t := trim (userInput_value w) in
  snd (run h (dispatch SendActivated) w) = Resolved tt
  /\ chatLog_children (fst (run h (dispatch SendActivated) w))
     = chatLog_children w
       ++ [msgDiv (lit "user") t; msgDiv (lit "bot") (lit "undefined")]
  /\ innerHTML (msgDiv (lit "bot") (lit "undefined"))
     = lit "<span class=" ++ dquote ++ lit "bot" ++ dquote
       ++ lit ">Bot:</span> undefined".
Proof.
  intros H Hf Hj Hjson Hnull Hmiss t. simpl dispatch.
  rewrite (run_send h w H). fold t. unfold exchange. fold t in Hf.
  rewrite Hf, Hj, (GetV_missing data _ Hjson Hnull Hmiss). simpl.
  repeat split. now rewrite <- app_assoc.
Qed.

Lemma missing_reply_renders_undefined_witness :
  trim (userInput_value (fresh_page (lit "Hello"))) <> []
  /\ chatLog_children
       (fst (run empty_object_host (dispatch SendActivated)
               (fresh_page (lit "Hello"))))
     = [msgDiv (lit "user") (lit "Hello");
        msgDiv (lit "bot") (lit "undefined")].
Proof.
  split; [discriminate|].
  destruct (missing_reply_renders_undefined empty_object_host
              (fresh_page (lit "Hello")) (mkResponse 200 (lit "{}"))
              (JObject []))
    as (_ & Hlog & _);
    [discriminate | reflexivity | reflexivity | reflexivity | discriminate
    | reflexivity | exact Hlog].
Defined.

(* ===================================================================== *)
(** ** A complete turn *)
(* ===================================================================== *)

(** C6: after a send of input that trims to [Hello], answered by the JSON
    body [{ "response": "Hi there" }], the log ends with the user entry
    [Hello] followed by the bot entry [Hi there]. *)
Theorem hello_turn_ends_the_log (h : host) (w : world) (r : response) :
  trim (userInput_value w) = lit "Hello" ->
  h _ (fetch_promise (chat_request (lit "Hello"))) = Resolved r ->
  h _ (json_promise r)
  = Resolved (JObject [(lit "response", JString (lit "Hi there"))]) ->
  run h (dispatch SendActivated) w
  = (rendered (lit "bot") (lit "Hi there")
       (echoed (lit "Hello") w), Resolved tt)
  /\ chatLog_children (fst (run h (dispatch SendActivated) w))
     = chatLog_children w
       ++ [msgDiv (lit "user") (lit "Hello");
           msgDiv (lit "bot") (lit "Hi there")]
  /\ map innerHTML [msgDiv (lit "user") (lit "Hello");
                    msgDiv (lit "bot") (lit "Hi there")]
     = [lit "<span class=" ++ dquote ++ lit "user" ++ dquote
        ++ lit ">You:</span> Hello";
        lit "<span class=" ++ dquote ++ lit "bot" ++ dquote
        ++ lit ">Bot:</span> Hi there"].
Proof.
  intros Ht Hf Hj. simpl dispatch.
  assert (H : trim (userInput_value w) <> []) by (rewrite Ht; discriminate).
  rewrite (run_send h w H), Ht. unfold exchange. rewrite Hf, Hj. simpl.
  repeat split. now rewrite <- app_assoc.
Qed.

Lemma hello_turn_ends_the_log_witness :
  trim (userInput_value (busy_page (lit " Hello "))) = lit "Hello"
  /\ chatLog_children
       (fst (run greeting_host (dispatch SendActivated)
               (busy_page (lit " Hello "))))
     = chatLog_children (busy_page (lit " Hello "))
       ++ [msgDiv (lit "user") (lit "Hello");
           msgDiv (lit "bot") (lit "Hi there")].
Proof.
  split; [reflexivity|].
  destruct (hello_turn_ends_the_log greeting_host (busy_page (lit " Hello "))
              (mkResponse 200 (lit "{...}")))
    as (_ & Hlog & _); [reflexivity | reflexivity | reflexivity | exact Hlog].
Defined.

(* ===================================================================== *)
(** ** Rendering *)
(* ===================================================================== *)

(** C7: for either sender and every text, [appendMessage] appends one
    entry, a [div] of class [message]; its label reads [You] for the user
    and [Bot] for the bot; and the text enters the markup assigned to
    [innerHTML] as it is, character for character, so that the markup of
    the text [<b>hi</b>] is handed to the document as markup. *)
Theorem appendMessage_interpolates_raw_text
  (h : host) (w : world) (text : jsstring) :
  (chatLog_children (fst (run h (appendMessage (lit "user") (JString text)) w))
   = chatLog_children w ++ [msgDiv (lit "user") text]
   /\ msgDiv (lit "user") text
      = mkElement (lit "div") [lit "message"]
          (lit "<span class=" ++ dquote ++ lit "user" ++ dquote ++ lit ">"
           ++ lit "You" ++ lit ":</span> " ++ text))
  /\ (chatLog_children (fst (run h (appendMessage (lit "bot") (JString text)) w))
      = chatLog_children w ++ [msgDiv (lit "bot") text]
      /\ msgDiv (lit "bot") text
         = mkElement (lit "div") [lit "message"]
             (lit "<span class=" ++ dquote ++ lit "bot" ++ dquote ++ lit ">"
              ++ lit "Bot" ++ lit ":</span> " ++ text))
  /\ innerHTML (msgDiv (lit "user") (lit "<b>hi</b>"))
     = lit "<span class=" ++ dquote ++ lit "user" ++ dquote
       ++ lit ">You:</span> <b>hi</b>".
Proof.
  rewrite !run_appendMessage. simpl fst. rewrite !rendered_children.
  repeat split.
Qed.

(* ===================================================================== *)
(** ** Scrolling *)
(* ===================================================================== *)

(** C8: after every append that [appendMessage] performs, the scroll
    offset of the log is the largest it can be scrolled to (when the
    message cannot be converted to a string, [appendMessage] throws before
    it appends and the page is as it was); hence the log is at its bottom
    when the listener suspends after the echo, and at the end of the
    activation however the exchange ends. *)
Theorem log_is_scrolled_to_bottom :
  (forall (h : host) (w : world) (sender : jsstring) (message : jsvalue)
          (text : jsstring),
      ToString message = inr text ->
      let w' := fst (run h (appendMessage sender message) w) in
      chatLog_children w' = chatLog_children w ++ [msgDiv sender text]
      /\ chatLog_scrollTop w' = maxScrollTop w')
  /\ (forall (h : host) (w : world) (sender : jsstring) (message : jsvalue)
             (e : exn),
         ToString message = inl e ->
         run h (appendMessage sender message) w = (w, Rejected e))
  /\ (forall (h : host) (w : world),
         trim (userInput_value w) <> [] ->
         let w1 := fst (start (dispatch SendActivated) w) in
         let w2 := fst (run h (dispatch SendActivated) w) in
         chatLog_scrollTop w1 = maxScrollTop w1
         /\ chatLog_scrollTop w2 = maxScrollTop w2).
Proof.
  split; [|split].
  - intros h w sender message text Htext w'. subst w'.
    rewrite run_appendMessage, Htext.
    split; [apply rendered_children | apply rendered_at_bottom].
  - intros h w sender message e Hthrow.
    now rewrite run_appendMessage, Hthrow.
  - intros h w H w1 w2. subst w1 w2. simpl dispatch.
    destruct (start_send w H) as [Hw1 _]. rewrite Hw1, (run_send h w H).
    split; [apply echoed_at_bottom|].
    destruct (exchange_cases h (trim (userInput_value w))
                (echoed (trim (userInput_value w)) w))
      as [[e ->]|[text ->]]; simpl fst;
      [apply echoed_at_bottom | apply rendered_at_bottom].
Qed.

Lemma log_is_scrolled_to_bottom_witness :
  (ToString (JNumber (lit "42")) = inr (lit "42")
   /\ chatLog_scrollTop
        (fst (run greeting_host
                (appendMessage (lit "bot") (JNumber (lit "42")))
                (busy_page [])))
      = 50)
  /\ (ToString (JObject [(lit "toString", JString (lit "x"))]) = inl TypeError
      /\ run greeting_host
           (appendMessage (lit "bot")
              (JObject [(lit "toString", JString (lit "x"))]))
           (busy_page [])
         = (busy_page [], Rejected TypeError))
  /\ trim (userInput_value (busy_page (lit "Hello"))) <> []
  /\ chatLog_scrollTop
       (fst (run greeting_host (dispatch SendActivated)
               (busy_page (lit "Hello"))))
     = 80
  /\ maxScrollTop
       (fst (run greeting_host (dispatch SendActivated)
               (busy_page (lit "Hello"))))
     = 80.
Proof.
  destruct log_is_scrolled_to_bottom as (Happend & Hthrow & Hsend).
  split; [split; [reflexivity|]|split; [split; [reflexivity|]|]].
  - destruct (Happend greeting_host (busy_page []) (lit "bot")
                (JNumber (lit "42")) (lit "42") eq_refl) as [_ Hbottom].
    rewrite Hbottom. reflexivity.
  - exact (Hthrow greeting_host (busy_page []) (lit "bot")
             (JObject [(lit "toString", JString (lit "x"))]) TypeError
             eq_refl).
  - split; [discriminate|].
    destruct (Hsend greeting_host (busy_page (lit "Hello"))) as [_ Hend];
      [discriminate|].
    split; [rewrite Hend|]; reflexivity.
Defined.

(* ===================================================================== *)
(** ** The two triggers *)
(* ===================================================================== *)

(** C9: a keypress of Enter in the input activates the same listener as
    the send control does: from every page and against every host the two
    suspend in the same state and end in the same state, with the same
    entries rendered, the same input content and the same requests. *)
Theorem enter_is_send (h : host) (w : world) (e : KeyboardEvent) :
  key e = lit "Enter" ->
  dispatch (KeyPressed e) = dispatch SendActivated
  /\ start (dispatch (KeyPressed e)) w = start (dispatch SendActivated) w
  /\ run h (dispatch (KeyPressed e)) w = run h (dispatch SendActivated) w.
Proof.
  intros Hkey.
  assert (Hsame : dispatch (KeyPressed e) = dispatch SendActivated).
  { unfold dispatch, userInput_onkeypress, sendBtn_click.
    rewrite Hkey, strict_eq_refl. reflexivity. }
  rewrite Hsame. repeat split.
Qed.

Lemma enter_is_send_witness :
  key (mkKey (lit "Enter")) = lit "Enter"
  /\ run greeting_host (dispatch (KeyPressed (mkKey (lit "Enter"))))
       (fresh_page (lit "Hello"))
     = run greeting_host (dispatch SendActivated) (fresh_page (lit "Hello")).
Proof.
  split; [reflexivity|].
  apply (enter_is_send greeting_host (fresh_page (lit "Hello"))
           (mkKey (lit "Enter"))).
  reflexivity.
Defined.

(* ===================================================================== *)
(** ** Order of the steps *)
(* ===================================================================== *)

(** C10: in an activation on input that trims to a non-empty string, the
    listener appends the echo, then empties the input, then issues the
    request, and only then suspends on the fetch promise, before anything
    is known of the outcome; whatever the outcome, the activation goes on
    from that state, these are its first effects and no request follows
    them. *)
Theorem echo_then_clear_then_request (h : host) (w : world) :
  trim (userInput_value w) <> [] ->
  let t := trim (userInput_value w) in
  let steps :=
    [Appended (msgDiv (lit "user") t);
     Scrolled (scrollHeight (appendChild (msgDiv (lit "user") t) w));
     InputAssigned [];
     Requested (chat_request t)] in
  trace (fst (start (dispatch SendActivated) w)) = trace w ++ steps
  /\ suspended_on (fetch_promise (chat_request t))
       (snd (start (dispatch SendActivated) w))
  /\ run h (dispatch SendActivated) w
     = run h (snd (start (dispatch SendActivated) w))
         (fst (start (dispatch SendActivated) w))
  /\ exists later,
       trace (fst (run h (dispatch SendActivated) w))
       = trace w ++ steps ++ later
       /\ requested later = [].
Proof.
  intros H t steps. subst steps. split; [|split; [|split]].
  - simpl dispatch. destruct (start_send w H) as [Hw1 _].
    rewrite Hw1. apply echoed_trace.
  - simpl dispatch. destruct (start_send w H) as [_ Hsusp]. exact Hsusp.
  - apply run_start.
  - simpl dispatch. rewrite (run_send h w H). fold t.
    destruct (exchange_cases h t (echoed t w)) as [[e ->]|[reply ->]];
      simpl fst.
    + exists []. rewrite app_nil_r. split; [apply echoed_trace | reflexivity].
    + eexists. rewrite rendered_trace, echoed_trace, <- app_assoc.
      split; reflexivity.
Qed.

Lemma echo_then_clear_then_request_witness :
  trim (userInput_value (fresh_page (lit "  Hello  "))) <> []
  /\ trace (fst (start (dispatch SendActivated) (fresh_page (lit "  Hello  "))))
     = [Appended (msgDiv (lit "user") (lit "Hello"));
        Scrolled 100;
        InputAssigned [];
        Requested (chat_request (lit "Hello"))].
Proof.
  split; [discriminate|].
  destruct (echo_then_clear_then_request offline_host
              (fresh_page (lit "  Hello  ")))
    as (Hsync & _); [discriminate|].
  exact Hsync.
Defined.

(* ===================================================================== *)
(** ** Further properties: keys other than Enter *)
(* ===================================================================== *)

Lemma strict_eq_true (s t : jsstring) : strict_eq s t = true -> s = t.
Proof.
  revert t; induction s as [|c s IH]; intros [|d t]; simpl;
    try reflexivity; try discriminate.
  intros H. apply andb_true_iff in H as [Hc Hs].
  apply N.eqb_eq in Hc. f_equal; auto.
Qed.

Lemma strict_eq_false (s t : jsstring) : s <> t -> strict_eq s t = false.
Proof.
  intros Hne. destruct (strict_eq s t) eqn:E; [|reflexivity].
  now apply strict_eq_true in E.
Qed.

(** X1: a keypress of any key other than Enter is ignored: the listener
    ends at once, and the log, the input, the scroll offset and the trace
    stay as they are, so nothing is sent. *)
Theorem other_keys_do_nothing (h : host) (w : world) (e : KeyboardEvent) :
  key e <> lit "Enter" ->
  start (dispatch (KeyPressed e)) w = (w, Return tt)
  /\ run h (dispatch (KeyPressed e)) w = (w, Resolved tt).
Proof.
  intros Hkey. unfold dispatch, userInput_onkeypress.
  rewrite (strict_eq_false _ _ Hkey). split; reflexivity.
Qed.

Lemma other_keys_do_nothing_witness :
  key (mkKey (lit "a")) <> lit "Enter"
  /\ run greeting_host (dispatch (KeyPressed (mkKey (lit "a"))))
       (busy_page (lit "Hello"))
     = (busy_page (lit "Hello"), Resolved tt).
Proof.
  split; [discriminate|].
  apply (other_keys_do_nothing greeting_host (busy_page (lit "Hello"))
           (mkKey (lit "a"))).
  discriminate.
Defined.

(* ===================================================================== *)
(** ** Further properties: what [trim] keeps *)
(* ===================================================================== *)

Section TrimShape.

Lemma trimStart_split (s : jsstring) :
  exists pre, s = pre ++ trimStart s /\ forallb is_whitespace pre = true.
Proof.
  induction s as [|c s (pre & Hs & Hpre)]; simpl.
  - now exists [].
  - destruct (is_whitespace c) eqn:Hc.
    + exists (c :: pre). simpl. rewrite Hc, Hpre. split; [now f_equal|reflexivity].
    + now exists [].
Qed.

Lemma trimStart_head (s : jsstring) (c : N) (rest : jsstring) :
  trimStart s = c :: rest -> is_whitespace c = false.
Proof.
  induction s as [|d s IH]; simpl; [discriminate|].
  destruct (is_whitespace d) eqn:Hd; [exact IH|].
  intros [= <- _]. exact Hd.
Qed.

Lemma trimEnd_split (s : jsstring) :
  exists post, s = trimEnd s ++ post /\ forallb is_whitespace post = true.
Proof.
  unfold trimEnd. destruct (trimStart_split (rev s)) as (pre & Hs & Hpre).
  exists (rev pre). split.
  - apply (f_equal (@rev N)) in Hs. rewrite rev_involutive, rev_app_distr in Hs.
    exact Hs.
  - now rewrite forallb_rev.
Qed.

Lemma trimEnd_last (s front : jsstring) (c : N) :
  trimEnd s = front ++ [c] -> is_whitespace c = false.
Proof.
  unfold trimEnd. intros H. apply (f_equal (@rev N)) in H.
  rewrite rev_involutive, rev_app_distr in H. simpl in H.
  exact (trimStart_head _ _ _ H).
Qed.

(** [trimEnd] keeps the first code unit of what it does not empty. *)
Lemma trimEnd_head (s : jsstring) (c : N) (rest : jsstring) :
  trimEnd s = c :: rest -> exists rest', s = c :: rest'.
Proof.
  intros H. destruct (trimEnd_split s) as (post & Hs & _).
  rewrite H in Hs. simpl in Hs. now exists (rest ++ post).
Qed.

End TrimShape.

(** X2: the text that the click listener echoes and sends is the content
    of the input without its leading and trailing whitespace and nothing
    else: the content is that text between two runs of whitespace, and the
    text neither starts nor ends with a whitespace character, so
    whitespace inside the message is kept. *)
Theorem trim_strips_only_the_ends (s : jsstring) :
  (exists pre post,
      s = pre ++ trim s ++ post
      /\ forallb is_whitespace pre = true
      /\ forallb is_whitespace post = true)
  /\ (forall c rest, trim s = c :: rest -> is_whitespace c = false)
  /\ (forall front c, trim s = front ++ [c] -> is_whitespace c = false).
Proof.
  split; [|split].
  - destruct (trimStart_split s) as (pre & Hs & Hpre).
    destruct (trimEnd_split (trimStart s)) as (post & Ht & Hpost).
    exists pre, post. unfold trim. rewrite <- Ht. auto.
  - intros c rest H. unfold trim in H.
    destruct (trimEnd_head _ _ _ H) as (rest' & Hs).
    exact (trimStart_head _ _ _ Hs).
  - intros front c H. exact (trimEnd_last _ _ _ H).
Qed.

(* ===================================================================== *)
(** ** Further properties: the body of the request *)
(* ===================================================================== *)

(** X3: the body of the request is well-formed JSON for every message,
    whatever it contains (quotes, backslashes, control characters, lone
    surrogates): read back as an object with a string member [message], it
    gives the trimmed text code unit for code unit. *)
Theorem chat_body_round_trip (message : jsstring) :
  exists b,
    body (init (chat_request message)) = Some b
    /\ read_chat_body b = Some message.
Proof.
  eexists. split; [apply chat_body_shape|].
  apply chat_body_reads, chat_body_shape.
Qed.

(** X4: two different texts never give the same request: the request
    determines the message. *)
Theorem chat_request_determines_message (m1 m2 : jsstring) :
  chat_request m1 = chat_request m2 -> m1 = m2.
Proof.
  intros H.
  pose proof (chat_body_reads m1 _ (chat_body_shape m1)) as Hr1.
  pose proof (chat_body_shape m1) as Hb1. rewrite H in Hb1.
  apply chat_body_reads in Hb1. congruence.
Qed.

Lemma chat_request_determines_message_witness :
  chat_request (trim (lit " a\b ")) = chat_request (lit "a\b")
  /\ trim (lit " a\b ") = lit "a\b".
Proof.
  split; [reflexivity|].
  apply (chat_request_determines_message (trim (lit " a\b ")) (lit "a\b")).
  reflexivity.
Defined.

(* ===================================================================== *)
(** ** Further properties: the exchange *)
(* ===================================================================== *)

Section SuspendedFacts.

Variable h : host.

Local Arguments lit : simpl never.
Local Arguments JSON_stringify : simpl never.

(** A suspended activation goes on from the page as it is when it is
    resumed, not as it was when it suspended. *)
Lemma run_suspended (w w' : world) :
  trim (userInput_value w) <> [] ->
  run h (snd (start sendBtn_onclick w)) w'
  = exchange h (trim (userInput_value w)) w'.
Proof.
  intros H. unfold sendBtn_onclick, exchange, chat_request. simpl.
  destruct (trim (userInput_value w)) as [|c t] eqn:Ht; [congruence|].
  simpl. fold (chat_request (c :: t)).
  destruct (h response (fetch_promise (chat_request (c :: t)))) as [r|e];
    simpl; [|reflexivity].
  destruct (h jsvalue (json_promise r)) as [data|e]; simpl; [|reflexivity].
  destruct (GetV data (lit "response")) as [e|reply]; simpl;
    [reflexivity|].
  rewrite run_appendMessage.
  destruct (ToString reply) as [e|text]; reflexivity.
Qed.

(** The click listener either does nothing or echoes and runs the
    exchange. *)
Lemma click_cases (w : world) :
  (trim (userInput_value w) = []
   /\ run h sendBtn_onclick w = (w, Resolved tt))
  \/ (trim (userInput_value w) <> []
      /\ run h sendBtn_onclick w
         = exchange h (trim (userInput_value w))
             (echoed (trim (userInput_value w)) w)).
Proof.
  destruct (trim (userInput_value w)) as [|c t] eqn:Ht.
  - left. split; [reflexivity|]. now apply run_blank.
  - right. split; [discriminate|]. rewrite <- Ht. apply run_send.
    rewrite Ht. discriminate.
Qed.

Lemma exchange_children (t : jsstring) (w1 : world) :
  exists bots,
    chatLog_children (fst (exchange h t w1)) = chatLog_children w1 ++ bots
    /\ (List.length bots <= 1)%nat.
Proof.
  destruct (exchange_cases h t w1) as [[e ->]|[reply ->]]; simpl fst.
  - exists []. now rewrite app_nil_r; auto.
  - exists [msgDiv (lit "bot") reply]. split; [apply rendered_children|auto].
Qed.

Lemma exchange_value (t : jsstring) (w1 : world) :
  userInput_value (fst (exchange h t w1)) = userInput_value w1.
Proof.
  destruct (exchange_cases h t w1) as [[e ->]|[reply ->]]; reflexivity.
Qed.

Lemma exchange_requested (t : jsstring) (w1 : world) :
  requested (trace (fst (exchange h t w1))) = requested (trace w1).
Proof.
  destruct (exchange_cases h t w1) as [[e ->]|[reply ->]]; simpl fst;
    [reflexivity|].
  rewrite rendered_trace, requested_app. simpl. apply app_nil_r.
Qed.

Lemma exchange_trace (t : jsstring) (w1 : world) :
  exists more, trace (fst (exchange h t w1)) = trace w1 ++ more.
Proof.
  destruct (exchange_cases h t w1) as [[e ->]|[reply ->]]; simpl fst.
  - exists []. now rewrite app_nil_r.
  - eexists. apply rendered_trace.
Qed.

Lemma exchange_at_bottom (t : jsstring) (w1 : world) :
  at_bottom w1 -> at_bottom (fst (exchange h t w1)).
Proof.
  intros Hb.
  destruct (exchange_cases h t w1) as [[e ->]|[reply ->]]; simpl fst;
    [exact Hb | apply rendered_at_bottom].
Qed.

End SuspendedFacts.

Lemma exchange_answering (reply t : jsstring) (w1 : world) :
  exchange (answering reply) t w1
  = (rendered (lit "bot") reply w1, Resolved tt).
Proof. reflexivity. Qed.

(** X5: the listener never reads the status of the response: two
    responses whose bodies parse alike end the activation alike, whatever
    their statuses. *)
Theorem status_is_never_read
  (h1 h2 : host) (w : world) (r1 r2 : response) :
  trim (userInput_value w) <> [] ->
  h1 _ (fetch_promise (chat_request (trim (userInput_value w)))) = Resolved r1 ->
  h2 _ (fetch_promise (chat_request (trim (userInput_value w)))) = Resolved r2 ->
  h1 _ (json_promise r1) = h2 _ (json_promise r2) ->
  run h1 (dispatch SendActivated) w = run h2 (dispatch SendActivated) w.
Proof.
  intros H Hf1 Hf2 Hj. simpl dispatch.
  rewrite (run_send h1 w H), (run_send h2 w H). unfold exchange.
  now rewrite Hf1, Hf2, Hj.
Qed.

Lemma status_is_never_read_witness :
  trim (userInput_value (fresh_page (lit "Hello"))) <> []
  /\ run greeting_host (dispatch SendActivated) (fresh_page (lit "Hello"))
     = run (scripted (Resolved (mkResponse 404 (lit "{...}")))
              (Resolved (JObject [(lit "response", JString (lit "Hi there"))])))
         (dispatch SendActivated) (fresh_page (lit "Hello")).
Proof.
  split; [discriminate|].
  apply (status_is_never_read greeting_host
           (scripted (Resolved (mkResponse 404 (lit "{...}")))
              (Resolved (JObject [(lit "response", JString (lit "Hi there"))])))
           (fresh_page (lit "Hello"))
           (mkResponse 200 (lit "{...}")) (mkResponse 404 (lit "{...}")));
    [discriminate | reflexivity | reflexivity | reflexivity].
Defined.

(** X6: the reply is rendered without any check of its type, and what
    happens depends on what it converts to.  A reply that is a string, a
    number, a boolean, [null] or missing is always rendered: the activation
    is fulfilled and the log gains, after the echo, one bot entry with the
    string form of the reply.  A reply object without a [toString] member of
    its own is rendered as [[object Object]].  A reply object with a
    [toString] member of its own makes the template literal throw: the
    activation is rejected with a TypeError and the echo stays the last
    entry. *)
Theorem reply_is_rendered_unchecked
  (h : host) (w : world) (r : response) (data reply : jsvalue) :
  trim (userInput_value w) <> [] ->
  h _ (fetch_promise (chat_request (trim (userInput_value w)))) = Resolved r ->
  h _ (json_promise r) = Resolved data ->
  GetV data (lit "response") = inr reply ->
  let t := trim (userInput_value w) in
  (is_primitive reply = true ->
   exists text,
     ToString reply = inr text
     /\ snd (run h (dispatch SendActivated) w) = Resolved tt
     /\ chatLog_children (fst (run h (dispatch SendActivated) w))
        = chatLog_children w
          ++ [msgDiv (lit "user") t; msgDiv (lit "bot") text])
  /\ (forall props,
         reply = JObject props ->
         has_own_property (lit "toString") props = false ->
         snd (run h (dispatch SendActivated) w) = Resolved tt
         /\ chatLog_children (fst (run h (dispatch SendActivated) w))
            = chatLog_children w
              ++ [msgDiv (lit "user") t;
                  msgDiv (lit "bot") (lit "[object Object]")])
  /\ (forall props,
         reply = JObject props ->
         has_own_property (lit "toString") props = true ->
         snd (run h (dispatch SendActivated) w) = Rejected TypeError
         /\ chatLog_children (fst (run h (dispatch SendActivated) w))
            = chatLog_children w ++ [msgDiv (lit "user") t]).
Proof.
  intros H Hf Hj Hget t. simpl dispatch.
  rewrite (run_send h w H). fold t. unfold exchange. fold t in Hf.
  rewrite Hf, Hj, Hget. split; [|split].
  - intros Hprim.
    assert (Htext : exists text, ToString reply = inr text).
    { destruct reply as [| |[|]|n|s|items|props]; try discriminate Hprim;
        simpl; eauto. }
    destruct Htext as (text & Htext). exists text. rewrite Htext.
    simpl fst. simpl snd.
    rewrite rendered_children, echoed_children, <- app_assoc.
    repeat split.
  - intros props -> Hown. cbn [ToString]. rewrite Hown.
    simpl fst. simpl snd.
    rewrite rendered_children, echoed_children, <- app_assoc.
    repeat split.
  - intros props -> Hown. cbn [ToString]. rewrite Hown.
    simpl fst. simpl snd. split; [reflexivity | apply echoed_children].
Qed.

Lemma reply_is_rendered_unchecked_witness :
  trim (userInput_value (fresh_page (lit "Hello"))) <> []
  /\ map innerHTML
       (chatLog_children
          (fst (run (scripted (Resolved (mkResponse 200 (lit "{...}")))
                       (Resolved
                          (JObject
                             [(lit "response",
                               JObject [(lit "text", JString (lit "Hi"))])])))
                  (dispatch SendActivated) (fresh_page (lit "Hello")))))
     = [lit "<span class=" ++ dquote ++ lit "user" ++ dquote
        ++ lit ">You:</span> Hello";
        lit "<span class=" ++ dquote ++ lit "bot" ++ dquote
        ++ lit ">Bot:</span> [object Object]"]
  /\ run (scripted (Resolved (mkResponse 200 (lit "{...}")))
            (Resolved
               (JObject
                  [(lit "response",
                    JObject [(lit "toString", JString (lit "x"))])])))
       (dispatch SendActivated) (fresh_page (lit "Hello"))
     = (echoed (lit "Hello") (fresh_page (lit "Hello")), Rejected TypeError).
Proof.
  split; [discriminate|]. split.
  - destruct (reply_is_rendered_unchecked
                (scripted (Resolved (mkResponse 200 (lit "{...}")))
                   (Resolved
                      (JObject
                         [(lit "response",
                           JObject [(lit "text", JString (lit "Hi"))])])))
                (fresh_page (lit "Hello")) (mkResponse 200 (lit "{...}"))
                (JObject
                   [(lit "response",
                     JObject [(lit "text", JString (lit "Hi"))])])
                (JObject [(lit "text", JString (lit "Hi"))]))
      as (_ & Hplain & _);
      [discriminate | reflexivity | reflexivity | reflexivity |].
    destruct (Hplain _ eq_refl eq_refl) as [_ Hlog].
    rewrite Hlog. reflexivity.
  - destruct (reply_is_rendered_unchecked
                (scripted (Resolved (mkResponse 200 (lit "{...}")))
                   (Resolved
                      (JObject
                         [(lit "response",
                           JObject [(lit "toString", JString (lit "x"))])])))
                (fresh_page (lit "Hello")) (mkResponse 200 (lit "{...}"))
                (JObject
                   [(lit "response",
                     JObject [(lit "toString", JString (lit "x"))])])
                (JObject [(lit "toString", JString (lit "x"))]))
      as (_ & _ & Hown);
      [discriminate | reflexivity | reflexivity | reflexivity |].
    destruct (Hown _ eq_refl eq_refl) as [Hrej _].
    reflexivity.
Defined.

(* ===================================================================== *)
(** ** Further properties: replies that arrive late *)
(* ===================================================================== *)

(** X7: a reply that arrives while the user is typing the next message
    leaves the draft alone: resuming the suspended activation, however the
    exchange ends, keeps the content of the input and only adds to the
    log, after the echo, at most one entry. *)
Theorem late_reply_keeps_draft (h : host) (w : world) (draft : jsstring) :
  trim (userInput_value w) <> [] ->
  let first := start (dispatch SendActivated) w in
  let w' := fst (run h (snd first) (type_input draft (fst first))) in
  userInput_value w' = draft
  /\ exists bots,
       chatLog_children w'
       = chatLog_children w
         ++ msgDiv (lit "user") (trim (userInput_value w)) :: bots
       /\ (List.length bots <= 1)%nat.
Proof.
  intros H first w'. subst first w'. simpl dispatch.
  destruct (start_send w H) as [Hw1 _].
  rewrite (run_suspended h w _ H), Hw1. split.
  - now rewrite exchange_value.
  - destruct (exchange_children h (trim (userInput_value w))
                (type_input draft (echoed (trim (userInput_value w)) w)))
      as (bots & Hlog & Hlen).
    exists bots. split; [|exact Hlen].
    rewrite Hlog. simpl chatLog_children. now rewrite <- app_assoc.
Qed.

Lemma late_reply_keeps_draft_witness :
  trim (userInput_value (fresh_page (lit "Hello"))) <> []
  /\ userInput_value
       (fst (run greeting_host
               (snd (start (dispatch SendActivated) (fresh_page (lit "Hello"))))
               (type_input (lit "and an")
                  (fst (start (dispatch SendActivated)
                          (fresh_page (lit "Hello")))))))
     = lit "and an".
Proof.
  split; [discriminate|].
  destruct (late_reply_keeps_draft greeting_host (fresh_page (lit "Hello"))
              (lit "and an"))
    as (Hdraft & _); [discriminate|].
  exact Hdraft.
Defined.

(** X8: replies are rendered in the order they arrive, not in the order
    of the sends: when a second message is sent while the first exchange
    is pending and the second exchange is settled first, the log shows
    both echoes, then the reply to the second message, then the reply to
    the first; the requests went out in the order of the sends. *)
Theorem overlapped_replies_follow_arrival
  (w : world) (a b ra rb : jsstring) :
  trim a <> [] ->
  trim b <> [] ->
  let w' := overlapped (answering ra) (answering rb) a b w in
  chatLog_children w'
  = chatLog_children w
    ++ [msgDiv (lit "user") (trim a);
        msgDiv (lit "user") (trim b);
        msgDiv (lit "bot") rb;
        msgDiv (lit "bot") ra]
  /\ requested (trace w')
     = requested (trace w) ++ [chat_request (trim a); chat_request (trim b)].
Proof.
  intros Ha Hb w'. subst w'. unfold overlapped. simpl dispatch.
  assert (Ha' : trim (userInput_value (type_input a w)) <> []) by exact Ha.
  destruct (start_send _ Ha') as [Hw1 _].
  rewrite (run_suspended _ _ _ Ha'), Hw1.
  change (userInput_value (type_input a w)) with a.
  set (w1 := echoed (trim a) (type_input a w)).
  assert (Hb' : trim (userInput_value (type_input b w1)) <> []) by exact Hb.
  destruct (start_send _ Hb') as [Hw2 _].
  rewrite (run_suspended _ _ _ Hb'), Hw2.
  change (userInput_value (type_input b w1)) with b.
  rewrite !exchange_answering. simpl fst. subst w1. split.
  - rewrite !rendered_children, !echoed_children.
    cbn [chatLog_children type_input]. rewrite echoed_children.
    cbn [chatLog_children type_input]. now rewrite <- !app_assoc.
  - rewrite !rendered_trace, !requested_app, echoed_trace, requested_app.
    cbn [trace type_input]. rewrite echoed_trace, requested_app.
    cbn [trace type_input]. simpl requested.
    now rewrite !app_nil_r, <- app_assoc.
Qed.

Lemma overlapped_replies_follow_arrival_witness :
  trim (lit "first") <> [] /\ trim (lit " second ") <> []
  /\ chatLog_children
       (overlapped (answering (lit "one")) (answering (lit "two"))
          (lit "first") (lit " second ") (fresh_page []))
     = [msgDiv (lit "user") (lit "first");
        msgDiv (lit "user") (lit "second");
        msgDiv (lit "bot") (lit "two");
        msgDiv (lit "bot") (lit "one")].
Proof.
  split; [discriminate|]. split; [discriminate|].
  destruct (overlapped_replies_follow_arrival (fresh_page [])
              (lit "first") (lit " second ") (lit "one") (lit "two"))
    as (Hlog & _); [discriminate | discriminate |].
  exact Hlog.
Defined.

(* ===================================================================== *)
(** ** Further properties: a conversation *)
(* ===================================================================== *)

Section SessionFacts.

Lemma turn_cases (h : host) (input : jsstring) (w : world) :
  (trim input = [] /\ turn h input w = type_input input w)
  \/ (trim input <> []
      /\ turn h input w
         = fst (exchange h (trim input)
                  (echoed (trim input) (type_input input w)))).
Proof.
  unfold turn. simpl dispatch.
  destruct (click_cases h (type_input input w)) as [[Ht Hrun]|[Ht Hrun]];
    rewrite Hrun; [left|right]; split; auto.
Qed.

Lemma turn_requested (h : host) (input : jsstring) (w : world) :
  requested (trace (turn h input w))
  = requested (trace w)
    ++ (if truthy (trim input) then [chat_request (trim input)] else []).
Proof.
  destruct (turn_cases h input w) as [[Ht ->]|[Ht ->]].
  - rewrite Ht. simpl. now rewrite app_nil_r.
  - rewrite exchange_requested, echoed_trace, requested_app. simpl.
    destruct (trim input); [congruence|reflexivity].
Qed.

Lemma turn_children (h : host) (input : jsstring) (w : world) :
  exists new,
    chatLog_children (turn h input w) = chatLog_children w ++ new
    /\ (List.length new <= 2)%nat.
Proof.
  destruct (turn_cases h input w) as [[Ht ->]|[Ht ->]].
  - exists []. simpl. now rewrite app_nil_r; auto.
  - destruct (exchange_children h (trim input)
                (echoed (trim input) (type_input input w)))
      as (bots & Hlog & Hlen).
    exists (msgDiv (lit "user") (trim input) :: bots).
    rewrite Hlog, echoed_children. simpl chatLog_children.
    rewrite <- app_assoc. split; [reflexivity | simpl; lia].
Qed.

Lemma turn_answered (reply input : jsstring) (w : world) :
  trim input <> [] ->
  chatLog_children (turn (answering reply) input w)
  = chatLog_children w
    ++ [msgDiv (lit "user") (trim input);
        msgDiv (lit "bot") reply].
Proof.
  intros Ht. destruct (turn_cases (answering reply) input w)
    as [[Hblank _]|[_ ->]]; [congruence|].
  rewrite exchange_answering. simpl fst.
  rewrite rendered_children, echoed_children. simpl chatLog_children.
  now rewrite <- app_assoc.
Qed.

End SessionFacts.

(** X9: over any sequence of turns, whatever each input is and however
    each exchange ends, the requests issued are exactly one per input that
    does not trim to the empty string, in the order of the turns; the
    entries that were in the log stay where they are, and each turn adds
    at most two. *)
Theorem session_sends_one_request_per_message
  (turns : list (host * jsstring)) (w : world) :
  requested (trace (session turns w))
  = requested (trace w) ++ session_requests turns
  /\ exists new,
       chatLog_children (session turns w) = chatLog_children w ++ new
       /\ (List.length new <= 2 * List.length turns)%nat.
Proof.
  revert w. induction turns as [|[h input] turns IH]; intro w.
  - simpl. rewrite app_nil_r. split; [reflexivity|].
    exists []. now rewrite app_nil_r; auto.
  - cbn [session session_requests].
    destruct (IH (turn h input w)) as (Hreq & new & Hlog & Hlen). split.
    + rewrite Hreq, turn_requested, <- app_assoc.
      now destruct (truthy (trim input)).
    + destruct (turn_children h input w) as (new0 & Hlog0 & Hlen0).
      exists (new0 ++ new). rewrite Hlog, Hlog0, <- app_assoc.
      split; [reflexivity|].
      rewrite length_app. simpl List.length. lia.
Qed.

(** X10: a conversation in which every message is answered before the
    next one is sent reads, in the log, as echo and reply, turn by turn, in
    the order of the turns. *)
Theorem answered_session_reads_in_order
  (exchanges : list (jsstring * jsstring)) (w : world) :
  (forall x, In x exchanges -> trim (fst x) <> []) ->
  chatLog_children (session (answered exchanges) w)
  = chatLog_children w ++ transcript exchanges.
Proof.
  revert w. induction exchanges as [|[input reply] exchanges IH]; intros w Hin.
  - simpl. now rewrite app_nil_r.
  - cbn [answered map session transcript fst snd].
    fold (answered exchanges).
    rewrite IH by (intros x Hx; apply Hin; now right).
    rewrite turn_answered by (apply (Hin (input, reply)); now left).
    now rewrite <- app_assoc.
Qed.

Lemma answered_session_reads_in_order_witness :
  (forall x,
      In x [(lit "Hello", lit "Hi there"); (lit " courses? ", lit "CS101")] ->
      trim (fst x) <> [])
  /\ chatLog_children
       (session
          (answered
             [(lit "Hello", lit "Hi there"); (lit " courses? ", lit "CS101")])
          (fresh_page []))
     = [msgDiv (lit "user") (lit "Hello");
        msgDiv (lit "bot") (lit "Hi there");
        msgDiv (lit "user") (lit "courses?");
        msgDiv (lit "bot") (lit "CS101")].
Proof.
  assert (Hin : forall x,
             In x [(lit "Hello", lit "Hi there");
                   (lit " courses? ", lit "CS101")] ->
             trim (fst x) <> []).
  { intros x [<-|[<-|[]]]; discriminate. }
  split; [exact Hin|].
  exact (answered_session_reads_in_order
           [(lit "Hello", lit "Hi there"); (lit " courses? ", lit "CS101")]
           (fresh_page []) Hin).
Defined.

(* ===================================================================== *)
(** ** Further properties: what no event undoes *)
(* ===================================================================== *)

(** X11: whatever the event (an activation of the send control or a
    keypress of any key) and however the host settles, the entries of the
    log and the effects so far are kept and only extended, by at most two
    entries; the content of the input is either kept or emptied; and a log
    that showed its newest entry still shows its newest entry. *)
Theorem every_event_only_extends
  (ev : ui_event) (h : host) (w : world) :
  let w' := fst (run h (dispatch ev) w) in
  (exists new,
      chatLog_children w' = chatLog_children w ++ new
      /\ (List.length new <= 2)%nat)
  /\ (exists more, trace w' = trace w ++ more)
  /\ (userInput_value w' = userInput_value w \/ userInput_value w' = [])
  /\ (at_bottom w -> at_bottom w').
Proof.
  intros w'. subst w'.
  assert (Hnoop : forall w0 : world,
             (exists new,
                 chatLog_children w0 = chatLog_children w0 ++ new
                 /\ (List.length new <= 2)%nat)
             /\ (exists more, trace w0 = trace w0 ++ more)
             /\ (userInput_value w0 = userInput_value w0
                 \/ userInput_value w0 = [])
             /\ (at_bottom w0 -> at_bottom w0)).
  { intros w0. repeat split; auto.
    - exists []. now rewrite app_nil_r; auto.
    - exists []. now rewrite app_nil_r. }
  assert (Hclick :
            (exists new,
                chatLog_children (fst (run h sendBtn_onclick w))
                = chatLog_children w ++ new
                /\ (List.length new <= 2)%nat)
            /\ (exists more,
                   trace (fst (run h sendBtn_onclick w)) = trace w ++ more)
            /\ (userInput_value (fst (run h sendBtn_onclick w))
                = userInput_value w
                \/ userInput_value (fst (run h sendBtn_onclick w)) = [])
            /\ (at_bottom w -> at_bottom (fst (run h sendBtn_onclick w)))).
  { destruct (click_cases h w) as [[Ht ->]|[Ht ->]]; [apply Hnoop|].
    set (t := trim (userInput_value w)).
    split; [|split; [|split]].
    - destruct (exchange_children h t (echoed t w)) as (bots & Hlog & Hlen).
      exists (msgDiv (lit "user") t :: bots).
      rewrite Hlog, echoed_children, <- app_assoc.
      split; [reflexivity | simpl; lia].
    - destruct (exchange_trace h t (echoed t w)) as (more & Hmore).
      eexists. rewrite Hmore, echoed_trace, <- app_assoc. reflexivity.
    - right. now rewrite exchange_value.
    - intros _. apply exchange_at_bottom. apply echoed_at_bottom. }
  destruct ev as [|e]; [exact Hclick|].
  unfold dispatch, userInput_onkeypress, sendBtn_click.
  destruct (strict_eq (key e) (lit "Enter")); [exact Hclick | apply Hnoop].
Qed.

Lemma every_event_only_extends_witness :
  at_bottom (busy_page (lit "Hello"))
  /\ at_bottom
       (fst (run greeting_host (dispatch SendActivated)
               (busy_page (lit "Hello")))).
Proof.
  assert (Hbefore : at_bottom (busy_page (lit "Hello"))) by reflexivity.
  split; [exact Hbefore|].
  destruct (every_event_only_extends SendActivated greeting_host
              (busy_page (lit "Hello")))
    as (_ & _ & _ & Hkeep).
  exact (Hkeep Hbefore).
Defined.
